(** * The schema compiler of [compiler.go]: cache, loaders, reference resolution

    A shallow embedding of [Compiler] and of its methods [Compile],
    [resolveSchemaURL], [GetSchema], the registration methods and the default
    HTTP loader of [setupLoaders].

    Go objects live in a heap: a [*Schema] is an address, so that "the same
    instance" is equality of addresses.  Every method runs in a state and
    error monad over the world (heap, compiler, trace); the trace records the
    calls that the properties count: loader invocations, transport requests,
    closed bodies and entries into schema initialization. *)

From Stdlib Require Import Ascii String.
From stdpp Require Import base strings gmap list pretty.

Local Open Scope string_scope.

(** ** Data *)

(** [[]byte]. *)
Abbreviation bytes := string (only parsing).

(** A Go [error], by its message. *)
Abbreviation error := string (only parsing).

(** [*Schema]: an address in the heap. *)
Abbreviation ptr := nat (only parsing).

(** A Go pair [(T, error)]. *)
Inductive result (A : Type) : Type :=
  | Ok (a : A)
  | Err (e : error).
Arguments Ok {A} a.
Arguments Err {A} e.

(** The fields of [Schema] that the compiler reads or writes ([ID], [uri]),
    and the anchor storage that [resolveAnchor] consults. *)
Record Schema : Type := mkSchema {
  ID : string;
  uri : string;
  anchors : gmap string nat
}.

Definition with_uri (s : Schema) (u : string) : Schema :=
  mkSchema (ID s) u (anchors s).

(** Input and output that a loader performs. *)
Inductive IO : Type :=
  | IOGet (url : string)      (* client.Get(url) *)
  | IOClose (url : string).   (* Close() of the body obtained for url *)

(** What the trace records. *)
Inductive Event : Type :=
  | EvLoad (scheme url : string)   (* loader(url), loader = c.Loaders[scheme] *)
  | EvIO (io : IO)
  | EvInit (schema : ptr).         (* schema.initializeSchema(c, nil) *)

(** [io.ReadCloser]: what [io.ReadAll] gives on it. *)
Record ReadCloser : Type := mkReadCloser {
  ReadAll : result bytes
}.

(** [func(url string) (io.ReadCloser, error)], with the IO it performs. *)
Abbreviation Loader := (string → list IO * result ReadCloser)%type (only parsing).

(** [Compiler].  The registries [Decoders] and [MediaTypes] take no part in
    compilation or resolution and are left out. *)
Record Compiler : Type := mkCompiler {
  schemas : gmap string nat;
  Loaders : gmap string (string → list IO * result ReadCloser);
  DefaultBaseURI : string;
  AssertFormat : bool
}.

Record World : Type := mkWorld {
  heap : list Schema;
  compiler : Compiler;
  trace : list Event
}.

(** The functions of the package that [compiler.go] calls and does not
    define: the parser and the methods of [Schema], and the URI helpers.
    Initialization receives the compiler and may change the whole world;
    anchor resolution reads the world and returns a schema or an error. *)
Record Externals : Type := mkExternals {
  newSchema : bytes → result Schema;
  isValidURI : string → bool;
  splitRef : string → string * string;
  getURLScheme : string → string;
  initializeSchema : ptr → World → World;       (* (c, nil) as arguments *)
  resolveAnchor : ptr → string → World → result ptr
}.

(** ** The monad of the methods *)

Definition M (A : Type) : Type := World → result A * World.

Global Instance M_ret : MRet M := λ A a w, (Ok a, w).

Global Instance M_bind : MBind M := λ A B f m w,
  match m w with
  | (Ok a, w') => f a w'
  | (Err e, w') => (Err e, w')
  end.

Definition fail {A : Type} (e : error) : M A := λ w, (Err e, w).

Definition lift {A : Type} (r : result A) : M A := λ w, (r, w).

Definition get_compiler : M Compiler := λ w, (Ok (compiler w), w).

Definition log (evs : list Event) (w : World) : World :=
  mkWorld (heap w) (compiler w) (trace w ++ evs).

(** The world with one more object on the heap, at the next address. *)
Definition allocated (s : Schema) (w : World) : World :=
  mkWorld (heap w ++ [s]) (compiler w) (trace w).

Definition alloc (s : Schema) : M ptr := λ w,
  (Ok (length (heap w)), allocated s w).

(** [schema.uri = uri]. *)
Definition set_uri (schema : ptr) (u : string) : M unit := λ w,
  (Ok tt, mkWorld (alter (λ s, with_uri s u) schema (heap w)) (compiler w) (trace w)).

(** [defer d]: [d] runs when the body returns, error or not. *)
Definition defer {A : Type} (d : World → World) (body : M A) : M A := λ w,
  let (r, w') := body w in (r, d w').

Definition on_compiler (f : Compiler → Compiler) (w : World) : World :=
  mkWorld (heap w) (f (compiler w)) (trace w).

(** ** Registration methods *)

Definition SetSchema (uri : string) (schema : ptr) (c : Compiler) : Compiler :=
  mkCompiler (<[uri := schema]> (schemas c)) (Loaders c) (DefaultBaseURI c) (AssertFormat c).

Definition SetDefaultBaseURI (baseURI : string) (c : Compiler) : Compiler :=
  mkCompiler (schemas c) (Loaders c) baseURI (AssertFormat c).

Definition SetAssertFormat (assert : bool) (c : Compiler) : Compiler :=
  mkCompiler (schemas c) (Loaders c) (DefaultBaseURI c) assert.

Definition RegisterLoader (scheme : string)
    (loaderFunc : string → list IO * result ReadCloser) (c : Compiler) : Compiler :=
  mkCompiler (schemas c) (<[scheme := loaderFunc]> (Loaders c)) (DefaultBaseURI c) (AssertFormat c).

(** ** The default loaders *)

(** [*http.Response], as far as the loader looks at it. *)
Record Response : Type := mkResponse {
  StatusCode : Z;
  Body : ReadCloser
}.

(** [http.Client]: its timeout in seconds and what [Get] answers. *)
Record Client : Type := mkClient {
  Timeout : Z;
  Get : string → result Response
}.

Definition StatusOK : Z := 200.

(** [defaultHTTPLoader] of [setupLoaders]; [StatusText] is [http.StatusText]. *)
Definition defaultHTTPLoader (client : Client) (StatusText : Z → string)
    (url : string) : list IO * result ReadCloser :=
  match Get client url with
  | Err err => ([IOGet url], Err ("failed to fetch " +:+ url +:+ ": " +:+ err))
  | Ok resp =>
      if bool_decide (StatusCode resp ≠ StatusOK) then
        ([IOGet url; IOClose url],
         Err (url +:+ " returned status code " +:+ pretty (StatusCode resp)
                  +:+ ": " +:+ StatusText (StatusCode resp)))
      else ([IOGet url], Ok (Body resp))
  end.

Definition setupLoaders (transport : string → result Response)
    (StatusText : Z → string) (c : Compiler) : Compiler :=
  let client := mkClient 10 transport in
  RegisterLoader "https" (defaultHTTPLoader client StatusText)
    (RegisterLoader "http" (defaultHTTPLoader client StatusText) c).

(** [NewCompiler], with the loaders of [initDefaults]. *)
Definition NewCompiler (transport : string → result Response)
    (StatusText : Z → string) : Compiler :=
  setupLoaders transport StatusText (mkCompiler ∅ ∅ "" false).

(** ** Compilation and resolution *)

Section Methods.
Variable X : Externals.

(** Lines 47 to 50 of [Compile]: the identifier of the schema, or the first
    hint when the identifier is empty and a hint is given. *)
Definition canonicalURI (schemaID : string) (URIs : list string) : string :=
  let uri := schemaID in
  if bool_decide (uri = "") && bool_decide (0 < length URIs)%nat
  then nth 0 URIs "" else uri.

(** The guard of line 52. *)
Definition cacheable (uri : string) : bool :=
  bool_decide (uri ≠ "") && isValidURI X uri.

(** Line 60. *)
Definition initialize (schema : ptr) : M unit := λ w,
  (Ok tt, initializeSchema X schema (log [EvInit schema] w)).

Definition Compile (jsonSchema : bytes) (URIs : list string) : M ptr :=
  s ← lift (newSchema X jsonSchema);
  schema ← alloc s;
  let uri := canonicalURI (ID s) URIs in
  if cacheable uri then
    set_uri schema uri;;
    c ← get_compiler;
    match schemas c !! uri with
    | Some existingSchema => mret existingSchema
    | None => initialize schema;; mret schema
    end
  else
    initialize schema;; mret schema.

(** The world after the loader of [scheme] ran on [url] and performed [ios]. *)
Definition loaded (scheme url : string) (ios : list IO) (w : World) : World :=
  log (EvLoad scheme url :: map EvIO ios) w.

(** The world after the body fetched for [url] was closed. *)
Definition closed (url : string) (w : World) : World :=
  log [EvIO (IOClose url)] w.

(** Line 77: the call of the loader, and the IO it performs. *)
Definition call_loader (scheme : string)
    (loader : string → list IO * result ReadCloser) (url : string) : M ReadCloser := λ w,
  let (ios, r) := loader url in
  (r, loaded scheme url ios w).

(** Lines 83 to 86. *)
Definition read_all (url : string) (body : ReadCloser) : M bytes :=
  match ReadAll body with
  | Ok data => mret data
  | Err err => fail ("failed to read data from " +:+ url +:+ ": " +:+ err)
  end.

(** [schema.resolveAnchor(anchor)]: it reads the world and leaves it. *)
Definition resolve_anchor (schema : ptr) (anchor : string) : M ptr := λ w,
  (resolveAnchor X schema anchor w, w).

Definition resolveSchemaURL (url : string) : M ptr :=
  let '(id, anchor) := splitRef X url in
  c ← get_compiler;
  match schemas c !! id with
  | Some schema => mret schema
  | None =>
      match Loaders c !! getURLScheme X url with
      | None => fail ("no loader registered for scheme " +:+ getURLScheme X url)
      | Some loader =>
          body ← call_loader (getURLScheme X url) loader url;
          defer (closed url) (
            data ← read_all url body;
            schema ← Compile data [id];
            if bool_decide (anchor ≠ "")
            then resolve_anchor schema anchor
            else mret schema)
      end
  end.

Definition GetSchema (ref : string) : M ptr :=
  let '(baseURI, anchor) := splitRef X ref in
  c ← get_compiler;
  match schemas c !! baseURI with
  | Some schema =>
      if bool_decide (baseURI = ref) then mret schema
      else resolve_anchor schema anchor
  | None => resolveSchemaURL ref
  end.

End Methods.

(** ** The functions that [compiler.go] calls, modelled *)

(** The character that delimits a JSON string. *)
Definition quote : string := String "034"%char "".

(** [cut c s]: the text before and the text after the first [c] of [s]. *)
Fixpoint cut (c : ascii) (s : string) : option (string * string) :=
  match s with
  | "" => None
  | String d r =>
      if Ascii.eqb d c then Some ("", r)
      else prod_map (String d) id <$> cut c r
  end.

(** [after pat s]: the text that follows the first occurrence of [pat]. *)
Fixpoint after (pat s : string) : option string :=
  if String.prefix pat s
  then Some (String.substring (String.length pat) (String.length s) s)
  else match s with
       | "" => None
       | String _ r => after pat r
       end.

(** Modelled from the spec: [splitRef] is not in the sources.  "Reference
    syntax: a URI optionally followed by a fragment delimiter and anchor
    name"; "a string decomposed into (base URI, fragment anchor)".  The
    delimiter is the first [#]; without one the anchor is empty. *)
Definition splitRef_model (ref : string) : string * string :=
  default (ref, "") (cut "#"%char ref).

(** The inverse the spec speaks of: "rejoining base and anchor with the
    fragment delimiter". *)
Definition rejoin (baseURI anchor : string) : string :=
  baseURI +:+ "#" +:+ anchor.

(** Modelled from the spec: [getURLScheme] is not in the sources.  "extract the
    URI scheme": the text before the first colon, empty without a colon. *)
Definition getURLScheme_model (url : string) : string :=
  match cut ":"%char url with
  | Some (scheme, _) => scheme
  | None => ""
  end.

(** Modelled from the spec: [isValidURI] is not in the sources.  "syntactically
    valid" is read as: the URI names a scheme. *)
Definition isValidURI_model (s : string) : bool :=
  bool_decide (getURLScheme_model s ≠ "").

(** Modelled from the spec: [newSchema] is not in the sources.  "parse the
    bytes into a schema representation (delegated)"; a "parse failure" is an
    error.  The model accepts a document that opens an object and reads its
    self-declared identifier, the string value of the member [$id]; the
    private field [uri] starts empty. *)
Definition newSchema_model (jsonSchema : bytes) : result Schema :=
  if String.prefix "{" jsonSchema then
    let id :=
      match after (quote +:+ "$id" +:+ quote +:+ ":" +:+ quote) jsonSchema with
      | Some rest => match cut "034"%char rest with Some (v, _) => v | None => rest end
      | None => ""
      end in
    Ok (mkSchema id "" ∅)
  else Err "invalid character looking for beginning of value".

(** Modelled from the spec: [initializeSchema] is not in the sources.  "The
    schema is expected to register itself (or be registered by the caller) into
    the cache as part of, or immediately after, initialization so that
    subsequent [$ref]s to the same URI observe it"; "insert on first successful
    compilation with a valid URI, never for anonymous schemas". *)
Definition register_self (valid : string → bool) (schema : ptr) (w : World) : World :=
  match heap w !! schema with
  | Some s =>
      if bool_decide (uri s ≠ "") && valid (uri s)
      then on_compiler (SetSchema (uri s) schema) w
      else w
  | None => w
  end.

(** Modelled from the spec: [resolveAnchor] is not in the sources.
    "resolveAnchor(name) -> (Schema, error)" over the "anchor storage" of the
    schema: the schema stored under the name, an error without one. *)
Definition resolveAnchor_model (schema : ptr) (anchor : string) (w : World) : result ptr :=
  match heap w !! schema with
  | Some s =>
      match anchors s !! anchor with
      | Some target => Ok target
      | None => Err ("anchor not found: " +:+ anchor)
      end
  | None => Err "nil schema"
  end.

(** [X] with the initialization that the spec describes. *)
Definition registering (X : Externals) : Externals :=
  mkExternals (newSchema X) (isValidURI X) (splitRef X) (getURLScheme X)
    (register_self (isValidURI X)) (resolveAnchor X).

Definition model : Externals :=
  mkExternals newSchema_model isValidURI_model splitRef_model getURLScheme_model
    (register_self isValidURI_model) resolveAnchor_model.

(** The number of loader invocations in a trace. *)
Definition is_load (e : Event) : bool :=
  match e with EvLoad _ _ => true | _ => false end.

Definition loads (t : list Event) : nat := length (filter is_load t).

(** ** A compiler with an in-memory loader *)

(** The document [{"$id":"mem://other"}]. *)
Definition doc_other : bytes :=
  "{" +:+ quote +:+ "$id" +:+ quote +:+ ":" +:+ quote +:+ "mem://other" +:+ quote +:+ "}".

(** A loader for the scheme [mem]: [mem://doc1] holds [{}], [mem://doc2] holds
    [doc_other], [mem://cut] breaks off while it is read, [mem://bad] holds
    text that is no schema, and nothing else exists. *)
Definition mem_loader (url : string) : list IO * result ReadCloser :=
  let doc := (splitRef_model url).1 in
  if bool_decide (doc = "mem://doc1") then ([], Ok (mkReadCloser (Ok "{}")))
  else if bool_decide (doc = "mem://doc2") then ([], Ok (mkReadCloser (Ok doc_other)))
  else if bool_decide (doc = "mem://cut") then ([], Ok (mkReadCloser (Err "unexpected EOF")))
  else if bool_decide (doc = "mem://bad") then ([], Ok (mkReadCloser (Ok "oops")))
  else ([], Err "no such document").

Definition mem_compiler : Compiler :=
  RegisterLoader "mem" mem_loader (mkCompiler ∅ ∅ "" false).

Definition mem_world : World := mkWorld [] mem_compiler [].

(** A world whose cache holds a document with one anchor. *)
Definition cached_world : World :=
  mkWorld [mkSchema "" "https://ex/schema.json" {[ "/defs/x" := 1 ]};
           mkSchema "" "" ∅]
          (SetSchema "https://ex/schema.json" 0 (mkCompiler ∅ ∅ "" false))
          [].

(** ** The decoder and media-type registries *)

Section Registries.

(** [interface{}]: what an unmarshaller produces. *)
Variable V : Type.

(** The fields [Decoders] and [MediaTypes] of [Compiler], as a record of
    their own beside the one above. *)
Record Registries : Type := mkRegistries {
  Decoders : gmap string (string → result bytes);
  MediaTypes : gmap string (bytes → result V)
}.

Definition RegisterDecoder (encodingName : string)
    (decoderFunc : string → result bytes) (c : Registries) : Registries :=
  mkRegistries (<[encodingName := decoderFunc]> (Decoders c)) (MediaTypes c).

Definition RegisterMediaType (mediaTypeName : string)
    (unmarshalFunc : bytes → result V) (c : Registries) : Registries :=
  mkRegistries (Decoders c) (<[mediaTypeName := unmarshalFunc]> (MediaTypes c)).

(** The library functions that the defaults wrap:
    [base64.StdEncoding.DecodeString], [json.Unmarshal], [xml.Unmarshal] and
    [yaml.Unmarshal], each as the value it stores or the error it returns. *)
Record Codecs : Type := mkCodecs {
  base64_DecodeString : string → result bytes;
  json_Unmarshal : bytes → result V;
  xml_Unmarshal : bytes → result V;
  yaml_Unmarshal : bytes → result V
}.

(** The three closures of [setupMediaTypes]. *)
Definition jsonMediaType (K : Codecs) (data : bytes) : result V :=
  match json_Unmarshal K data with
  | Err err => Err ("json unmarshal error: " +:+ err)
  | Ok temp => Ok temp
  end.

Definition xmlMediaType (K : Codecs) (data : bytes) : result V :=
  match xml_Unmarshal K data with
  | Err err => Err ("xml unmarshal error: " +:+ err)
  | Ok temp => Ok temp
  end.

Definition yamlMediaType (K : Codecs) (data : bytes) : result V :=
  match yaml_Unmarshal K data with
  | Err err => Err ("yaml unmarshal error: " +:+ err)
  | Ok temp => Ok temp
  end.

Definition setupMediaTypes (K : Codecs) (c : Registries) : Registries :=
  let c := mkRegistries (Decoders c)
             (<["application/json" := jsonMediaType K]> (MediaTypes c)) in
  let c := mkRegistries (Decoders c)
             (<["application/xml" := xmlMediaType K]> (MediaTypes c)) in
  mkRegistries (Decoders c)
    (<["application/yaml" := yamlMediaType K]> (MediaTypes c)).

(** The part of [initDefaults] on these two registries; its last step,
    [setupLoaders], is in [NewCompiler]. *)
Definition initDefaults (K : Codecs) (c : Registries) : Registries :=
  let c := mkRegistries (<["base64" := base64_DecodeString K]> (Decoders c))
             (MediaTypes c) in
  setupMediaTypes K c.

(** The two registries of a compiler that [NewCompiler] returns. *)
Definition NewRegistries (K : Codecs) : Registries :=
  initDefaults K (mkRegistries ∅ ∅).

End Registries.

Arguments Decoders {V} _.
Arguments MediaTypes {V} _.
Arguments mkRegistries {V} _ _.
Arguments RegisterDecoder {V} _ _ _.
Arguments RegisterMediaType {V} _ _ _.
Arguments base64_DecodeString {V} _.
Arguments json_Unmarshal {V} _.
Arguments xml_Unmarshal {V} _.
Arguments yaml_Unmarshal {V} _.
Arguments mkCodecs {V} _ _ _ _.
Arguments jsonMediaType {V} _ _.
Arguments xmlMediaType {V} _ _.
Arguments yamlMediaType {V} _ _.
Arguments setupMediaTypes {V} _ _.
Arguments initDefaults {V} _ _.
Arguments NewRegistries {V} _.

(** Codecs over strings, for concrete runs: the decoder is the identity, JSON
    accepts text that opens an object, XML fails and YAML accepts all. *)
Definition text_codecs : Codecs string :=
  mkCodecs (λ s, Ok s)
    (λ data, if String.prefix "{" data then Ok data
             else Err "invalid character")
    (λ data, Err "EOF") (λ data, Ok data).

(** [sub] occurs in [s]. *)
Definition contains (sub s : string) : Prop :=
  ∃ before behind, s = before +:+ sub +:+ behind.

(** * Properties *)

(** ** The steps of the monad *)

Lemma bind_ok {A B : Type} (m : M A) (f : A → M B) (w w' : World) (a : A) :
  m w = (Ok a, w') → (m ≫= f) w = f a w'.
Proof. intros Hm. unfold mbind, M_bind. by rewrite Hm. Qed.

Lemma bind_err {A B : Type} (m : M A) (f : A → M B) (w w' : World) (e : error) :
  m w = (Err e, w') → (m ≫= f) w = (Err e, w').
Proof. intros Hm. unfold mbind, M_bind. by rewrite Hm. Qed.

Lemma bind_err_inv {A B : Type} (m : M A) (f : A → M B) (w w' : World) (e : error) :
  (m ≫= f) w = (Err e, w') →
  m w = (Err e, w') ∨ ∃ a w1, m w = (Ok a, w1) ∧ f a w1 = (Err e, w').
Proof.
  unfold mbind, M_bind. destruct (m w) as [[a|e1] w1]; intros H.
  - right. eauto.
  - left. congruence.
Qed.

Lemma set_uri_fresh (s : Schema) (u : string) (w : World) :
  set_uri (length (heap w)) u (allocated s w) = (Ok tt, allocated (with_uri s u) w).
Proof.
  unfold set_uri, allocated; simpl. do 2 f_equal.
  replace (length (heap w)) with (length (heap w) + 0)%nat at 1 by lia.
  by rewrite alter_app_r.
Qed.

(** ** [Compile], case by case *)

Section CompileFacts.
Variable X : Externals.

Lemma Compile_parse_error jsonSchema URIs e w :
  newSchema X jsonSchema = Err e →
  Compile X jsonSchema URIs w = (Err e, w).
Proof. intros Hn. unfold Compile. apply bind_err. unfold lift. by rewrite Hn. Qed.

Lemma Compile_error_inv jsonSchema URIs e w w' :
  Compile X jsonSchema URIs w = (Err e, w') →
  newSchema X jsonSchema = Err e ∧ w' = w.
Proof.
  intros H. unfold Compile in H.
  apply bind_err_inv in H as [H | (s & w1 & Hs & H)].
  - unfold lift in H. by injection H as -> ->.
  - exfalso. unfold mbind, M_bind, mret, M_ret in H.
    unfold alloc, set_uri, get_compiler, initialize in H. simpl in H.
    repeat case_match; discriminate.
Qed.

Lemma Compile_hit jsonSchema URIs s existing w :
  newSchema X jsonSchema = Ok s →
  cacheable X (canonicalURI (ID s) URIs) = true →
  schemas (compiler w) !! canonicalURI (ID s) URIs = Some existing →
  Compile X jsonSchema URIs w
  = (Ok existing, allocated (with_uri s (canonicalURI (ID s) URIs)) w).
Proof.
  intros Hn Hc Hl. unfold Compile.
  rewrite (bind_ok _ _ w w s) by (unfold lift; by rewrite Hn).
  rewrite (bind_ok _ _ w (allocated s w) (length (heap w))) by done.
  rewrite Hc.
  erewrite bind_ok by apply set_uri_fresh.
  erewrite bind_ok by done. simpl. by rewrite Hl.
Qed.

Lemma Compile_miss jsonSchema URIs s w :
  newSchema X jsonSchema = Ok s →
  cacheable X (canonicalURI (ID s) URIs) = true →
  schemas (compiler w) !! canonicalURI (ID s) URIs = None →
  Compile X jsonSchema URIs w
  = (Ok (length (heap w)),
     initializeSchema X (length (heap w))
       (log [EvInit (length (heap w))]
          (allocated (with_uri s (canonicalURI (ID s) URIs)) w))).
Proof.
  intros Hn Hc Hl. unfold Compile.
  rewrite (bind_ok _ _ w w s) by (unfold lift; by rewrite Hn).
  rewrite (bind_ok _ _ w (allocated s w) (length (heap w))) by done.
  rewrite Hc.
  erewrite bind_ok by apply set_uri_fresh.
  erewrite bind_ok by done. simpl. by rewrite Hl.
Qed.

Lemma Compile_uncacheable jsonSchema URIs s w :
  newSchema X jsonSchema = Ok s →
  cacheable X (canonicalURI (ID s) URIs) = false →
  Compile X jsonSchema URIs w
  = (Ok (length (heap w)),
     initializeSchema X (length (heap w))
       (log [EvInit (length (heap w))] (allocated s w))).
Proof.
  intros Hn Hc. unfold Compile.
  rewrite (bind_ok _ _ w w s) by (unfold lift; by rewrite Hn).
  rewrite (bind_ok _ _ w (allocated s w) (length (heap w))) by done.
  by rewrite Hc.
Qed.

Lemma cacheable_true u : cacheable X u = true ↔ u ≠ "" ∧ isValidURI X u = true.
Proof.
  unfold cacheable. rewrite andb_true_iff, bool_decide_eq_true. done.
Qed.

Lemma cacheable_false u : cacheable X u = false ↔ u = "" ∨ isValidURI X u = false.
Proof.
  unfold cacheable. rewrite andb_false_iff, bool_decide_eq_false.
  split; (intros [H|H]; [left|right]; try done).
  - by destruct (decide (u = "")).
  - by intros ?.
Qed.

End CompileFacts.

(** ** [resolveSchemaURL] and [GetSchema], path by path *)

Section ResolveFacts.
Variable X : Externals.

Lemma resolveSchemaURL_cached url id anchor schema w :
  splitRef X url = (id, anchor) →
  schemas (compiler w) !! id = Some schema →
  resolveSchemaURL X url w = (Ok schema, w).
Proof.
  intros Hs Hc. unfold resolveSchemaURL. rewrite Hs.
  erewrite bind_ok by done. by rewrite Hc.
Qed.

Lemma resolveSchemaURL_no_loader url id anchor w :
  splitRef X url = (id, anchor) →
  schemas (compiler w) !! id = None →
  Loaders (compiler w) !! getURLScheme X url = None →
  resolveSchemaURL X url w
  = (Err ("no loader registered for scheme " +:+ getURLScheme X url), w).
Proof.
  intros Hs Hc Hl. unfold resolveSchemaURL. rewrite Hs.
  erewrite bind_ok by done. by rewrite Hc, Hl.
Qed.

Lemma resolveSchemaURL_loader_error url id anchor loader ios e w :
  splitRef X url = (id, anchor) →
  schemas (compiler w) !! id = None →
  Loaders (compiler w) !! getURLScheme X url = Some loader →
  loader url = (ios, Err e) →
  resolveSchemaURL X url w = (Err e, loaded (getURLScheme X url) url ios w).
Proof.
  intros Hs Hc Hl He. unfold resolveSchemaURL. rewrite Hs.
  erewrite bind_ok by done. rewrite Hc, Hl.
  apply bind_err. unfold call_loader. by rewrite He.
Qed.

(** After a hit in the loader registry and a body, the rest of the method
    runs under the deferred [Close]. *)
Lemma resolveSchemaURL_body url id anchor loader ios body w :
  splitRef X url = (id, anchor) →
  schemas (compiler w) !! id = None →
  Loaders (compiler w) !! getURLScheme X url = Some loader →
  loader url = (ios, Ok body) →
  resolveSchemaURL X url w
  = defer (closed url)
      (data ← read_all url body;
       schema ← Compile X data [id];
       if bool_decide (anchor ≠ "") then resolve_anchor X schema anchor
       else mret schema)
      (loaded (getURLScheme X url) url ios w).
Proof.
  intros Hs Hc Hl He. unfold resolveSchemaURL. rewrite Hs.
  erewrite bind_ok by done. rewrite Hc, Hl.
  by erewrite bind_ok by (unfold call_loader; by rewrite He).
Qed.

Lemma resolveSchemaURL_read_error url id anchor loader ios body err w :
  splitRef X url = (id, anchor) →
  schemas (compiler w) !! id = None →
  Loaders (compiler w) !! getURLScheme X url = Some loader →
  loader url = (ios, Ok body) →
  ReadAll body = Err err →
  resolveSchemaURL X url w
  = (Err ("failed to read data from " +:+ url +:+ ": " +:+ err),
     closed url (loaded (getURLScheme X url) url ios w)).
Proof.
  intros Hs Hc Hl He Hr. erewrite resolveSchemaURL_body by done.
  unfold defer. erewrite bind_err; [done|].
  unfold read_all. by rewrite Hr.
Qed.

Lemma resolveSchemaURL_compile_error url id anchor loader ios body data e w :
  splitRef X url = (id, anchor) →
  schemas (compiler w) !! id = None →
  Loaders (compiler w) !! getURLScheme X url = Some loader →
  loader url = (ios, Ok body) →
  ReadAll body = Ok data →
  newSchema X data = Err e →
  resolveSchemaURL X url w
  = (Err e, closed url (loaded (getURLScheme X url) url ios w)).
Proof.
  intros Hs Hc Hl He Hr Hn. erewrite resolveSchemaURL_body by done.
  unfold defer. erewrite bind_ok by (unfold read_all; by rewrite Hr).
  erewrite bind_err; [done|]. by apply Compile_parse_error.
Qed.

Lemma resolveSchemaURL_compiled url id anchor loader ios body data schema w w2 :
  splitRef X url = (id, anchor) →
  schemas (compiler w) !! id = None →
  Loaders (compiler w) !! getURLScheme X url = Some loader →
  loader url = (ios, Ok body) →
  ReadAll body = Ok data →
  Compile X data [id] (loaded (getURLScheme X url) url ios w) = (Ok schema, w2) →
  resolveSchemaURL X url w
  = (if bool_decide (anchor ≠ "") then resolveAnchor X schema anchor w2 else Ok schema,
     closed url w2).
Proof.
  intros Hs Hc Hl He Hr Hn. erewrite resolveSchemaURL_body by done.
  unfold defer. erewrite bind_ok by (unfold read_all; by rewrite Hr).
  erewrite bind_ok by done.
  by case_bool_decide.
Qed.

Lemma GetSchema_hit ref baseURI anchor schema w :
  splitRef X ref = (baseURI, anchor) →
  schemas (compiler w) !! baseURI = Some schema →
  GetSchema X ref w
  = (if bool_decide (baseURI = ref) then Ok schema
     else resolveAnchor X schema anchor w, w).
Proof.
  intros Hs Hc. unfold GetSchema. rewrite Hs.
  erewrite bind_ok by done. rewrite Hc. by case_bool_decide.
Qed.

Lemma GetSchema_miss ref baseURI anchor w :
  splitRef X ref = (baseURI, anchor) →
  schemas (compiler w) !! baseURI = None →
  GetSchema X ref w = resolveSchemaURL X ref w.
Proof.
  intros Hs Hc. unfold GetSchema. rewrite Hs.
  erewrite bind_ok by done. by rewrite Hc.
Qed.

End ResolveFacts.

(** ** What [Compile] returns *)

Section CompileClaims.
Variable X : Externals.

(** C1.  When the canonical URI of the parsed bytes is non-empty, valid and
    already a key of the cache, [Compile] returns the address stored under it,
    whatever the bytes are.  Initialization is not entered (the trace does not
    grow), and the compiler, its cache included, is as before: the entry of the
    first compilation stays. *)
Theorem Compile_returns_cached_instance jsonSchema URIs s u existing w :
  newSchema X jsonSchema = Ok s →
  canonicalURI (ID s) URIs = u →
  u ≠ "" →
  isValidURI X u = true →
  schemas (compiler w) !! u = Some existing →
  Compile X jsonSchema URIs w = (Ok existing, allocated (with_uri s u) w)
  ∧ trace (Compile X jsonSchema URIs w).2 = trace w
  ∧ compiler (Compile X jsonSchema URIs w).2 = compiler w
  ∧ schemas (compiler (Compile X jsonSchema URIs w).2) !! u = Some existing.
Proof.
  intros Hn <- Hu Hv Hc.
  assert (Compile X jsonSchema URIs w
          = (Ok existing, allocated (with_uri s (canonicalURI (ID s) URIs)) w)) as ->.
  { apply Compile_hit; [done| |done]. by apply cacheable_true. }
  done.
Qed.

(** C9.  The canonical URI is the identifier of the schema when it has one,
    else the first hint, else empty.  A valid canonical URI becomes the [uri]
    of the schema and the key under which the cache is asked; with neither an
    identifier nor a hint the schema gets no [uri] and the cache is not asked. *)
Theorem Compile_canonical_uri jsonSchema URIs s w :
  newSchema X jsonSchema = Ok s →
  let uri := canonicalURI (ID s) URIs in
  let schema := length (heap w) in
  (ID s ≠ "" → uri = ID s)
  ∧ (ID s = "" → ∀ hint rest, URIs = hint :: rest → uri = hint)
  ∧ (ID s = "" → URIs = [] →
       uri = ""
       ∧ Compile X jsonSchema URIs w
         = (Ok schema, initializeSchema X schema (log [EvInit schema] (allocated s w))))
  ∧ (uri ≠ "" → isValidURI X uri = true →
       Compile X jsonSchema URIs w
       = match schemas (compiler w) !! uri with
         | Some existingSchema => (Ok existingSchema, allocated (with_uri s uri) w)
         | None =>
             (Ok schema,
              initializeSchema X schema
                (log [EvInit schema] (allocated (with_uri s uri) w)))
         end).
Proof.
  intros Hn uri schema. subst uri schema. unfold canonicalURI at 1 2 3.
  cbv zeta. split; [|split; [|split]].
  - intros Hid. by rewrite bool_decide_eq_false_2.
  - intros Hid hint rest ->. rewrite bool_decide_eq_true_2 by done.
    by rewrite bool_decide_eq_true_2 by (simpl; lia).
  - intros Hid ->. split; [by rewrite Hid|].
    apply Compile_uncacheable; [done|].
    apply cacheable_false. left. unfold canonicalURI. cbv zeta. by rewrite Hid.
  - intros Hu Hv.
    destruct (schemas (compiler w) !! _) as [existing|] eqn:Hc.
    + apply Compile_hit; [done| |done]. by apply cacheable_true.
    + apply Compile_miss; [done| |done]. by apply cacheable_true.
Qed.


End CompileClaims.

(** ** What resolution returns *)

Section ResolveClaims.
Variable X : Externals.

(** An error of [resolveSchemaURL] that comes after initialization: the
    fetched document compiled, and the anchor was not found in it. *)
Lemma resolveSchemaURL_error_inv url e w w' :
  resolveSchemaURL X url w = (Err e, w') →
  compiler w' = compiler w
  ∨ ∃ loader ios body data schema w2,
      Loaders (compiler w) !! getURLScheme X url = Some loader
      ∧ loader url = (ios, Ok body)
      ∧ ReadAll body = Ok data
      ∧ Compile X data [(splitRef X url).1] (loaded (getURLScheme X url) url ios w)
        = (Ok schema, w2)
      ∧ (splitRef X url).2 ≠ ""
      ∧ resolveAnchor X schema (splitRef X url).2 w2 = Err e
      ∧ w' = closed url w2.
Proof.
  destruct (splitRef X url) as [id anchor] eqn:Hs. simpl.
  destruct (schemas (compiler w) !! id) as [schema|] eqn:Hc.
  { by erewrite resolveSchemaURL_cached by done. }
  destruct (Loaders (compiler w) !! getURLScheme X url) as [loader|] eqn:Hl;
    [|erewrite resolveSchemaURL_no_loader by done; intros [= _ <-]; by left].
  destruct (loader url) as [ios [body|e1]] eqn:He;
    [|erewrite resolveSchemaURL_loader_error by done; intros [= _ <-]; by left].
  destruct (ReadAll body) as [data|err] eqn:Hr;
    [|erewrite resolveSchemaURL_read_error by done; intros [= _ <-]; by left].
  destruct (Compile X data [id] (loaded (getURLScheme X url) url ios w))
    as [[schema|e1] w2] eqn:HC.
  - erewrite resolveSchemaURL_compiled by done.
    case_bool_decide as Ha; [|done].
    intros [= Hra <-]. right. by exists loader, ios, body, data, schema, w2.
  - apply Compile_error_inv in HC as [Hn ->].
    erewrite resolveSchemaURL_compile_error by done. intros [= _ <-]. by left.
Qed.

(** C4.  With the base of [ref] in the cache, [GetSchema] returns the cached
    schema when [ref] is its own base, and else what the anchor resolver of
    the cached schema gives for the anchor.  The world is as before, so no
    loader ran. *)
Theorem GetSchema_cached_base ref baseURI anchor schema w :
  splitRef X ref = (baseURI, anchor) →
  schemas (compiler w) !! baseURI = Some schema →
  (baseURI = ref → GetSchema X ref w = (Ok schema, w))
  ∧ (baseURI ≠ ref → GetSchema X ref w = (resolveAnchor X schema anchor w, w))
  ∧ (GetSchema X ref w).2 = w
  ∧ loads (trace (GetSchema X ref w).2) = loads (trace w).
Proof.
  intros Hs Hc. rewrite (GetSchema_hit X ref baseURI anchor schema) by done.
  split; [|split]; [| |done].
  - intros Heq. by rewrite bool_decide_eq_true_2.
  - intros Hne. by rewrite bool_decide_eq_false_2.
Qed.


(** C6.  With the base not in the cache and no loader under the scheme of the
    URI, resolution fails with the message that names the scheme, and the
    world is as before: no loader ran and nothing was fetched. *)
Theorem unregistered_scheme_fails url id anchor w :
  splitRef X url = (id, anchor) →
  schemas (compiler w) !! id = None →
  Loaders (compiler w) !! getURLScheme X url = None →
  resolveSchemaURL X url w
  = (Err ("no loader registered for scheme " +:+ getURLScheme X url), w)
  ∧ GetSchema X url w
    = (Err ("no loader registered for scheme " +:+ getURLScheme X url), w)
  ∧ trace (GetSchema X url w).2 = trace w.
Proof.
  intros Hs Hc Hl.
  erewrite GetSchema_miss by done.
  by erewrite resolveSchemaURL_no_loader by done.
Qed.

(** C3, as amended.  Parse failure, missing loader, loader failure, read
    failure and an anchor failure on a cached base return the error and leave
    the compiler, its cache included, as it was.  Every other error of the
    three methods is an anchor failure that follows the compilation of a
    fetched document. *)
Theorem errors_before_initialization_keep_cache :
  (∀ jsonSchema URIs e w,
     newSchema X jsonSchema = Err e → Compile X jsonSchema URIs w = (Err e, w))
  ∧ (∀ jsonSchema URIs e w w',
       Compile X jsonSchema URIs w = (Err e, w') → w' = w)
  ∧ (∀ url id anchor w,
       splitRef X url = (id, anchor) →
       schemas (compiler w) !! id = None →
       (Loaders (compiler w) !! getURLScheme X url = None →
          resolveSchemaURL X url w
          = (Err ("no loader registered for scheme " +:+ getURLScheme X url), w))
       ∧ (∀ loader ios,
            Loaders (compiler w) !! getURLScheme X url = Some loader →
            (∀ e, loader url = (ios, Err e) →
               (resolveSchemaURL X url w).1 = Err e
               ∧ compiler (resolveSchemaURL X url w).2 = compiler w)
            ∧ (∀ body err, loader url = (ios, Ok body) → ReadAll body = Err err →
                 (resolveSchemaURL X url w).1
                 = Err ("failed to read data from " +:+ url +:+ ": " +:+ err)
                 ∧ compiler (resolveSchemaURL X url w).2 = compiler w)
            ∧ (∀ body data e, loader url = (ios, Ok body) → ReadAll body = Ok data →
                 newSchema X data = Err e →
                 (resolveSchemaURL X url w).1 = Err e
                 ∧ compiler (resolveSchemaURL X url w).2 = compiler w)))
  ∧ (∀ ref baseURI anchor schema e w,
       splitRef X ref = (baseURI, anchor) →
       schemas (compiler w) !! baseURI = Some schema →
       baseURI ≠ ref →
       resolveAnchor X schema anchor w = Err e →
       GetSchema X ref w = (Err e, w))
  ∧ (∀ ref e w w',
       GetSchema X ref w = (Err e, w') →
       compiler w' = compiler w
       ∨ ∃ data schema w1 w2,
           Compile X data [(splitRef X ref).1] w1 = (Ok schema, w2)
           ∧ resolveAnchor X schema (splitRef X ref).2 w2 = Err e
           ∧ w' = closed ref w2)
  ∧ (∀ url e w w',
       resolveSchemaURL X url w = (Err e, w') →
       compiler w' = compiler w
       ∨ ∃ data schema w1 w2,
           Compile X data [(splitRef X url).1] w1 = (Ok schema, w2)
           ∧ resolveAnchor X schema (splitRef X url).2 w2 = Err e
           ∧ w' = closed url w2).
Proof.
  assert (∀ url e w w',
       resolveSchemaURL X url w = (Err e, w') →
       compiler w' = compiler w
       ∨ ∃ data schema w1 w2,
           Compile X data [(splitRef X url).1] w1 = (Ok schema, w2)
           ∧ resolveAnchor X schema (splitRef X url).2 w2 = Err e
           ∧ w' = closed url w2) as Hres.
  { intros url e w w' H.
    apply resolveSchemaURL_error_inv in H
      as [H | (loader & ios & body & data & schema & w2 & _ & _ & _ & HC & _ & Ha & ->)].
    - by left.
    - right. by exists data, schema, (loaded (getURLScheme X url) url ios w), w2. }
  split; [|split; [|split; [|split; [|split]]]].
  - intros. by apply Compile_parse_error.
  - intros jsonSchema URIs e w w' H. by apply Compile_error_inv in H as [_ ->].
  - intros url id anchor w Hs Hc. split.
    + intros Hl. by eapply resolveSchemaURL_no_loader.
    + intros loader ios Hl. split; [|split].
      * intros e He. by erewrite resolveSchemaURL_loader_error by done.
      * intros body err He Hr. by erewrite resolveSchemaURL_read_error by done.
      * intros body data e He Hr Hn.
        by erewrite resolveSchemaURL_compile_error by done.
  - intros ref baseURI anchor schema e w Hs Hc Hne Ha.
    erewrite GetSchema_hit by done. by rewrite bool_decide_eq_false_2, Ha.
  - intros ref e w w' H.
    destruct (splitRef X ref) as [baseURI anchor] eqn:Hs.
    destruct (schemas (compiler w) !! baseURI) as [schema|] eqn:Hc.
    + erewrite GetSchema_hit in H by done. left. by injection H as _ <-.
    + erewrite GetSchema_miss in H by done.
      apply Hres in H. by rewrite Hs in H.
  - apply Hres.
Qed.

End ResolveClaims.

(** ** The default HTTP loader *)

Lemma append_assoc3 (a b c : string) : (a +:+ b) +:+ c = a +:+ b +:+ c.
Proof.
  induction a as [|x a IH]; [done|].
  change (String x ((a +:+ b) +:+ c) = String x (a +:+ b +:+ c)). by f_equal.
Qed.

Lemma append_empty_r (a : string) : a +:+ "" = a.
Proof.
  induction a as [|x a IH]; [done|].
  change (String x (a +:+ "") = String x a). by f_equal.
Qed.

Lemma contains_prefix (sub behind : string) : contains sub (sub +:+ behind).
Proof. by exists "", behind. Qed.

Lemma contains_suffix (sub before : string) : contains sub (before +:+ sub).
Proof. exists before, "". by rewrite append_empty_r. Qed.

Lemma contains_behind (sub before s : string) :
  contains sub s → contains sub (before +:+ s).
Proof.
  intros (b & a & ->). exists (before +:+ b), a. symmetry. apply append_assoc3.
Qed.

(** C7.  [NewCompiler] registers one loader under [http] and under [https].
    That loader gives a body only for a response of status 200, and then
    performs the request and nothing else.  On any other status it closes the
    body of the response, as its last action, and returns an error made of the
    URL, the status in decimal and the reason phrase.  When the transport
    fails it returns an error made of the URL and the text of the transport
    error. *)
Theorem defaultHTTPLoader_contract (transport : string → result Response)
    (StatusText : Z → string) (url : string) :
  let loader := defaultHTTPLoader (mkClient 10 transport) StatusText in
  Loaders (NewCompiler transport StatusText) !! "http" = Some loader
  ∧ Loaders (NewCompiler transport StatusText) !! "https" = Some loader
  ∧ (∀ ios body,
       loader url = (ios, Ok body) →
       ∃ resp, transport url = Ok resp ∧ StatusCode resp = 200%Z
               ∧ body = Body resp ∧ ios = [IOGet url])
  ∧ (∀ resp,
       transport url = Ok resp → StatusCode resp = 200%Z →
       loader url = ([IOGet url], Ok (Body resp)))
  ∧ (∀ resp,
       transport url = Ok resp → StatusCode resp ≠ 200%Z →
       ∃ msg,
         loader url = ([IOGet url; IOClose url], Err msg)
         ∧ msg = url +:+ " returned status code " +:+ pretty (StatusCode resp)
                     +:+ ": " +:+ StatusText (StatusCode resp)
         ∧ contains url msg
         ∧ contains (pretty (StatusCode resp)) msg
         ∧ contains (StatusText (StatusCode resp)) msg)
  ∧ (∀ err,
       transport url = Err err →
       ∃ msg,
         loader url = ([IOGet url], Err msg)
         ∧ msg = "failed to fetch " +:+ url +:+ ": " +:+ err
         ∧ contains url msg
         ∧ contains err msg).
Proof.
  intros loader. subst loader.
  split; [|split]; [done|done|].
  unfold defaultHTTPLoader, StatusOK. simpl. split; [|split; [|split]].
  - intros ios body. destruct (transport url) as [resp|err]; [|done].
    case_bool_decide as Hst; [done|].
    intros [= <- <-]. exists resp. repeat split.
    by destruct (decide (StatusCode resp = 200%Z)).
  - intros resp -> Hst. by rewrite bool_decide_eq_false_2 by (by intros ?).
  - intros resp -> Hst. rewrite bool_decide_eq_true_2 by done.
    eexists. split; [done|]. split; [done|]. split; [|split].
    + apply contains_prefix.
    + apply contains_behind, contains_behind, contains_prefix.
    + do 3 apply contains_behind. apply contains_suffix.
  - intros err ->. eexists. split; [done|]. split; [done|]. split.
    + apply contains_behind, contains_prefix.
    + do 2 apply contains_behind. apply contains_suffix.
Qed.

(** ** Splitting a reference *)

Lemma cut_append (c : ascii) (baseURI anchor : string) :
  cut c baseURI = None →
  cut c (baseURI +:+ String c anchor) = Some (baseURI, anchor).
Proof.
  induction baseURI as [|d r IH]; intros Hcut.
  - change (cut c (String c anchor) = Some ("", anchor)).
    simpl. by rewrite Ascii.eqb_refl.
  - change (cut c (String d (r +:+ String c anchor)) = Some (String d r, anchor)).
    simpl in *. destruct (Ascii.eqb d c); [done|].
    destruct (cut c r) as [[b a]|]; [done|].
    by rewrite IH.
Qed.

Lemma cut_Some (c : ascii) (s baseURI anchor : string) :
  cut c s = Some (baseURI, anchor) →
  s = baseURI +:+ String c anchor ∧ cut c baseURI = None.
Proof.
  revert baseURI. induction s as [|d r IH]; intros baseURI Hcut; [done|].
  simpl in Hcut. destruct (Ascii.eqb d c) eqn:Hd.
  - apply Ascii.eqb_eq in Hd as ->. by injection Hcut as <- <-.
  - destruct (cut c r) as [[b a]|] eqn:Hr; [|done].
    injection Hcut as <- <-.
    destruct (IH b eq_refl) as [-> Hb]. split; [done|].
    simpl. by rewrite Hd, Hb.
Qed.

Lemma rejoin_eq (baseURI anchor : string) :
  rejoin baseURI anchor = baseURI +:+ String "#" anchor.
Proof. done. Qed.

(** C8.  For the splitting at the first fragment delimiter: a base without
    delimiter joined to an anchor splits into that base and that anchor; a
    reference with a delimiter is the rejoining of its two parts, so the
    rejoined reference is resolved as the reference itself; and splitting is a
    function, whose result does not change through rejoining and splitting
    again. *)
Theorem splitRef_rejoin_lossless :
  (∀ baseURI anchor,
     cut "#" baseURI = None →
     splitRef_model (rejoin baseURI anchor) = (baseURI, anchor))
  ∧ (∀ ref baseURI anchor,
       cut "#" ref = Some (baseURI, anchor) →
       splitRef_model ref = (baseURI, anchor)
       ∧ rejoin baseURI anchor = ref
       ∧ ∀ w, GetSchema model (rejoin baseURI anchor) w = GetSchema model ref w)
  ∧ (∀ ref,
       splitRef_model (rejoin (splitRef_model ref).1 (splitRef_model ref).2)
       = splitRef_model ref)
  ∧ (∀ ref p q, splitRef_model ref = p → splitRef_model ref = q → p = q).
Proof.
  split; [|split; [|split]].
  - intros baseURI anchor Hcut. unfold splitRef_model.
    by rewrite rejoin_eq, cut_append.
  - intros ref baseURI anchor Hcut. unfold splitRef_model. rewrite Hcut.
    apply cut_Some in Hcut as [-> _]. by rewrite rejoin_eq.
  - intros ref. unfold splitRef_model at 2 3 4.
    destruct (cut "#" ref) as [[b a]|] eqn:Hcut; simpl.
    + apply cut_Some in Hcut as [_ Hb]. unfold splitRef_model.
      by rewrite rejoin_eq, cut_append.
    + unfold splitRef_model. by rewrite rejoin_eq, cut_append.
  - congruence.
Qed.

(** ** Resolution when initialization registers the schema *)

Lemma loads_app (t1 t2 : list Event) : loads (t1 ++ t2) = (loads t1 + loads t2)%nat.
Proof. unfold loads. by rewrite filter_app, length_app. Qed.

Lemma loads_IO (ios : list IO) : loads (map EvIO ios) = 0%nat.
Proof. induction ios as [|io ios IH]; [done|]. apply IH. Qed.





(** A schema without valid canonical URI, whose [uri] the parser left empty,
    is not registered: the compiler is as before. *)
Lemma Compile_registering_anonymous (X : Externals) jsonSchema URIs s w :
  newSchema X jsonSchema = Ok s →
  uri s = "" →
  canonicalURI (ID s) URIs = "" ∨ isValidURI X (canonicalURI (ID s) URIs) = false →
  compiler (Compile (registering X) jsonSchema URIs w).2 = compiler w.
Proof.
  intros Hn Hu Hc.
  rewrite (Compile_uncacheable (registering X) jsonSchema URIs s)
    by (try done; by apply cacheable_false).
  simpl. unfold register_self. simpl.
  rewrite list_lookup_middle by done. by rewrite Hu.
Qed.


(** ** Concrete runs *)

(** Two different documents under a cached URI: the cached address comes
    back for both. *)
Lemma Compile_returns_cached_instance_witness :
  (Compile model "{}" ["https://ex/schema.json"] cached_world).1 = Ok 0
  ∧ (Compile model "{ }" ["https://ex/schema.json"] cached_world).1 = Ok 0.
Proof.
  split.
  - destruct (Compile_returns_cached_instance model "{}" ["https://ex/schema.json"]
                (mkSchema "" "" ∅) "https://ex/schema.json" 0 cached_world)
      as [H _]; [reflexivity | reflexivity | discriminate | reflexivity
                | reflexivity |].
    rewrite H. reflexivity.
  - destruct (Compile_returns_cached_instance model "{ }" ["https://ex/schema.json"]
                (mkSchema "" "" ∅) "https://ex/schema.json" 0 cached_world)
      as [H _]; [reflexivity | reflexivity | discriminate | reflexivity
                | reflexivity |].
    rewrite H. reflexivity.
Defined.

(** A document without identifier, compiled with a hint. *)
Lemma Compile_canonical_uri_witness :
  canonicalURI "" ["mem://doc1"] = "mem://doc1"
  ∧ Compile model "{}" ["mem://doc1"] mem_world
    = (Ok 0,
       register_self isValidURI_model 0
         (log [EvInit 0] (allocated (mkSchema "" "mem://doc1" ∅) mem_world))).
Proof.
  destruct (Compile_canonical_uri model "{}" ["mem://doc1"] (mkSchema "" "" ∅)
              mem_world eq_refl) as (_ & Hhint & _ & Hvalid).
  split.
  - apply (Hhint eq_refl "mem://doc1" []). reflexivity.
  - apply Hvalid; [discriminate | reflexivity].
Defined.


(** The cached document of [cached_world], asked for with an anchor. *)
Lemma GetSchema_cached_base_witness :
  GetSchema model "https://ex/schema.json#/defs/x" cached_world = (Ok 1, cached_world)
  ∧ GetSchema model "https://ex/schema.json" cached_world = (Ok 0, cached_world).
Proof.
  split.
  - destruct (GetSchema_cached_base model "https://ex/schema.json#/defs/x"
                "https://ex/schema.json" "/defs/x" 0 cached_world)
      as (_ & H & _); [reflexivity | reflexivity |].
    apply H. discriminate.
  - destruct (GetSchema_cached_base model "https://ex/schema.json"
                "https://ex/schema.json" "" 0 cached_world)
      as (H & _); [reflexivity | reflexivity |].
    apply H. reflexivity.
Defined.


(** No loader is registered for [ftp]. *)
Lemma unregistered_scheme_fails_witness :
  GetSchema model "ftp://ex/schema.json" mem_world
  = (Err "no loader registered for scheme ftp", mem_world).
Proof.
  destruct (unregistered_scheme_fails model "ftp://ex/schema.json"
              "ftp://ex/schema.json" "" mem_world)
    as (_ & H & _); [reflexivity | reflexivity | reflexivity |].
  exact H.
Defined.

(** The error paths of the in-memory loader. *)
Lemma errors_before_initialization_keep_cache_witness :
  ((resolveSchemaURL model "mem://none" mem_world).1 = Err "no such document"
   ∧ compiler (resolveSchemaURL model "mem://none" mem_world).2 = mem_compiler)
  ∧ ((resolveSchemaURL model "mem://cut" mem_world).1
     = Err "failed to read data from mem://cut: unexpected EOF"
     ∧ compiler (resolveSchemaURL model "mem://cut" mem_world).2 = mem_compiler)
  ∧ ((resolveSchemaURL model "mem://bad" mem_world).1
     = Err "invalid character looking for beginning of value"
     ∧ compiler (resolveSchemaURL model "mem://bad" mem_world).2 = mem_compiler).
Proof.
  destruct (errors_before_initialization_keep_cache model)
    as (_ & _ & Hres & _).
  split; [|split].
  - destruct (Hres "mem://none" "mem://none" "" mem_world eq_refl eq_refl)
      as [_ Hl].
    destruct (Hl mem_loader [] eq_refl) as (H & _ & _).
    apply H. reflexivity.
  - destruct (Hres "mem://cut" "mem://cut" "" mem_world eq_refl eq_refl)
      as [_ Hl].
    destruct (Hl mem_loader [] eq_refl) as (_ & H & _).
    apply (H (mkReadCloser (Err "unexpected EOF")) "unexpected EOF");
      reflexivity.
  - destruct (Hres "mem://bad" "mem://bad" "" mem_world eq_refl eq_refl)
      as [_ Hl].
    destruct (Hl mem_loader [] eq_refl) as (_ & _ & H).
    apply (H (mkReadCloser (Ok "oops")) "oops"); reflexivity.
Defined.

(** Against C3 as stated: the fetched document compiles and is registered,
    the anchor is then not found, and the error comes back with a new entry
    in the cache. *)
Lemma anchor_failure_after_fetch_writes_cache :
  (GetSchema model "mem://doc1#nope" mem_world).1 = Err "anchor not found: nope"
  ∧ (resolveSchemaURL model "mem://doc1#nope" mem_world).1
    = Err "anchor not found: nope"
  ∧ schemas (compiler mem_world) !! "mem://doc1" = None
  ∧ schemas (compiler (GetSchema model "mem://doc1#nope" mem_world).2)
      !! "mem://doc1" = Some 0
  ∧ schemas (compiler (resolveSchemaURL model "mem://doc1#nope" mem_world).2)
      !! "mem://doc1" = Some 0.
Proof. vm_compute. done. Qed.

(** A 404 of the transport. *)
Lemma defaultHTTPLoader_contract_witness :
  defaultHTTPLoader
    (mkClient 10 (λ _, Ok (mkResponse 404 (mkReadCloser (Ok "")))))
    (λ _, "Not Found") "http://ex/s.json"
  = ([IOGet "http://ex/s.json"; IOClose "http://ex/s.json"],
     Err "http://ex/s.json returned status code 404: Not Found").
Proof.
  destruct (defaultHTTPLoader_contract
              (λ _, Ok (mkResponse 404 (mkReadCloser (Ok ""))))
              (λ _, "Not Found") "http://ex/s.json") as (_ & _ & _ & _ & H & _).
  destruct (H (mkResponse 404 (mkReadCloser (Ok ""))) eq_refl) as (msg & -> & -> & _).
  - discriminate.
  - reflexivity.
Defined.

(** The reference of the spec. *)
Lemma splitRef_rejoin_lossless_witness :
  splitRef_model (rejoin "https://ex/schema.json" "/defs/x")
  = ("https://ex/schema.json", "/defs/x").
Proof.
  destruct splitRef_rejoin_lossless as [H _].
  apply H. reflexivity.
Defined.



(** * Further properties of the compiler *)

(** ** Hints, cache hits and pre-registered schemas *)

Section CompileMore.
Variable X : Externals.

Lemma Compile_by_canonical jsonSchema URIs URIs' w :
  (∀ s, newSchema X jsonSchema = Ok s →
        canonicalURI (ID s) URIs = canonicalURI (ID s) URIs') →
  Compile X jsonSchema URIs w = Compile X jsonSchema URIs' w.
Proof.
  intros H. unfold Compile, mbind, M_bind, lift.
  destruct (newSchema X jsonSchema) as [s|e]; [|done].
  by rewrite (H s eq_refl).
Qed.

(** X1.  [Compile] reads no hint but the first: further hints change nothing,
    an empty first hint counts as no hint whatever follows it, and a document
    that declares its identifier is compiled as if no hint were given. *)
Theorem Compile_reads_first_hint_only jsonSchema w :
  (∀ hint rest,
     Compile X jsonSchema (hint :: rest) w = Compile X jsonSchema [hint] w)
  ∧ (∀ rest, Compile X jsonSchema ("" :: rest) w = Compile X jsonSchema [] w)
  ∧ (∀ s URIs,
       newSchema X jsonSchema = Ok s → ID s ≠ "" →
       Compile X jsonSchema URIs w = Compile X jsonSchema [] w).
Proof.
  split; [|split].
  - intros hint rest. apply Compile_by_canonical. intros s _.
    unfold canonicalURI. cbv zeta. by case_bool_decide.
  - intros rest. apply Compile_by_canonical. intros s _.
    unfold canonicalURI. cbv zeta. by case_bool_decide.
  - intros s URIs Hn Hid. apply Compile_by_canonical. intros s' Hn'.
    assert (s' = s) as -> by congruence.
    unfold canonicalURI. cbv zeta. by rewrite bool_decide_eq_false_2.
Qed.

Lemma Compile_world_cases jsonSchema URIs s w :
  newSchema X jsonSchema = Ok s →
  (∃ existing,
     schemas (compiler w) !! canonicalURI (ID s) URIs = Some existing
     ∧ canonicalURI (ID s) URIs ≠ ""
     ∧ isValidURI X (canonicalURI (ID s) URIs) = true
     ∧ Compile X jsonSchema URIs w
       = (Ok existing, allocated (with_uri s (canonicalURI (ID s) URIs)) w))
  ∨ (∃ s',
       (s' = s ∨ s' = with_uri s (canonicalURI (ID s) URIs))
       ∧ Compile X jsonSchema URIs w
         = (Ok (length (heap w)),
            initializeSchema X (length (heap w))
              (log [EvInit (length (heap w))] (allocated s' w)))).
Proof.
  intros Hn. destruct (cacheable X (canonicalURI (ID s) URIs)) eqn:Hc.
  - destruct (schemas (compiler w) !! canonicalURI (ID s) URIs)
      as [existing|] eqn:Hl.
    + left. exists existing. apply cacheable_true in Hc as Hc'.
      destruct Hc' as [Hu Hv]. repeat split; try done.
      by apply Compile_hit.
    + right. exists (with_uri s (canonicalURI (ID s) URIs)).
      split; [by right|]. by apply Compile_miss.
  - right. exists s. split; [by left|]. by apply Compile_uncacheable.
Qed.

(** X2.  When the bytes parse, [Compile] returns either the address that the
    cache holds under the canonical URI, leaving compiler and trace as they
    are, or the address of the schema it has just allocated, after entering
    initialization on it.  With an empty cache it is always the new
    address. *)
Theorem Compile_cached_or_fresh jsonSchema URIs s w :
  newSchema X jsonSchema = Ok s →
  let uri := canonicalURI (ID s) URIs in
  let schema := length (heap w) in
  ((∃ existing,
      schemas (compiler w) !! uri = Some existing
      ∧ uri ≠ "" ∧ isValidURI X uri = true
      ∧ Compile X jsonSchema URIs w = (Ok existing, allocated (with_uri s uri) w))
   ∨ (∃ s',
        (s' = s ∨ s' = with_uri s uri)
        ∧ Compile X jsonSchema URIs w
          = (Ok schema,
             initializeSchema X schema (log [EvInit schema] (allocated s' w)))))
  ∧ (schemas (compiler w) = ∅ → (Compile X jsonSchema URIs w).1 = Ok schema).
Proof.
  intros Hn uri schema.
  pose proof (Compile_world_cases jsonSchema URIs s w Hn) as Hcases.
  split; [done|].
  intros Hempty. destruct Hcases as [(existing & Hl & _)|(s' & _ & ->)]; [|done].
  by rewrite Hempty, lookup_empty in Hl.
Qed.


End CompileMore.

(** ** Chained configuration *)

Lemma Compiler_eq (c d : Compiler) :
  schemas c = schemas d → Loaders c = Loaders d →
  DefaultBaseURI c = DefaultBaseURI d → AssertFormat c = AssertFormat d →
  c = d.
Proof. destruct c, d; simpl. by intros -> -> -> ->. Qed.

(** X4.  In a chain of configuration calls the last registration under a key
    wins, registrations under different keys can be made in any order, and
    the four setters do not disturb one another. *)
Theorem configuration_chains (c : Compiler) :
  (∀ u p q, SetSchema u q (SetSchema u p c) = SetSchema u q c)
  ∧ (∀ u v p q, u ≠ v →
       SetSchema u p (SetSchema v q c) = SetSchema v q (SetSchema u p c))
  ∧ (∀ s f g, RegisterLoader s g (RegisterLoader s f c) = RegisterLoader s g c)
  ∧ (∀ s t f g, s ≠ t →
       RegisterLoader s f (RegisterLoader t g c)
       = RegisterLoader t g (RegisterLoader s f c))
  ∧ (∀ u p s f,
       SetSchema u p (RegisterLoader s f c) = RegisterLoader s f (SetSchema u p c))
  ∧ (∀ u p b a,
       SetSchema u p (SetDefaultBaseURI b (SetAssertFormat a c))
       = SetAssertFormat a (SetDefaultBaseURI b (SetSchema u p c)))
  ∧ (∀ s f b a,
       RegisterLoader s f (SetDefaultBaseURI b (SetAssertFormat a c))
       = SetAssertFormat a (SetDefaultBaseURI b (RegisterLoader s f c))).
Proof.
  repeat split; intros; apply Compiler_eq; simpl; try done.
  - apply insert_insert_eq.
  - by apply insert_insert_ne.
  - apply insert_insert_eq.
  - by apply insert_insert_ne.
Qed.

(** ** The effects of a resolution *)

Section ResolveMore.
Variable X : Externals.

Lemma resolveSchemaURL_after_read url id anchor loader ios body data w :
  splitRef X url = (id, anchor) →
  schemas (compiler w) !! id = None →
  Loaders (compiler w) !! getURLScheme X url = Some loader →
  loader url = (ios, Ok body) →
  ReadAll body = Ok data →
  (resolveSchemaURL X url w).2
  = closed url (Compile X data [id] (loaded (getURLScheme X url) url ios w)).2.
Proof.
  intros Hs Hc Hl He Hr.
  destruct (Compile X data [id] (loaded (getURLScheme X url) url ios w))
    as [[schema|e] w2] eqn:HC.
  - by erewrite resolveSchemaURL_compiled by done.
  - apply Compile_error_inv in HC as [Hn ->].
    by erewrite resolveSchemaURL_compile_error by done.
Qed.

(** X5.  On a miss with a registered loader, [resolveSchemaURL] calls that
    loader once, with the whole reference, before anything else.  Without a
    body the loader's error is the result and nothing is closed.  With a body
    the body is closed as the last action, whether reading fails, compiling
    fails, the anchor is missing or a schema is returned; between the call
    and the close lie only the effects of [Compile]. *)
Theorem resolveSchemaURL_effects url id anchor loader w :
  splitRef X url = (id, anchor) →
  schemas (compiler w) !! id = None →
  Loaders (compiler w) !! getURLScheme X url = Some loader →
  let w1 := loaded (getURLScheme X url) url (loader url).1 w in
  trace w1 = (trace w ++ EvLoad (getURLScheme X url) url :: map EvIO (loader url).1)%list
  ∧ (∀ e, (loader url).2 = Err e → resolveSchemaURL X url w = (Err e, w1))
  ∧ (∀ body, (loader url).2 = Ok body →
       last (trace (resolveSchemaURL X url w).2) = Some (EvIO (IOClose url))
       ∧ (∀ err, ReadAll body = Err err →
            resolveSchemaURL X url w
            = (Err ("failed to read data from " +:+ url +:+ ": " +:+ err),
               closed url w1))
       ∧ (∀ data, ReadAll body = Ok data →
            (resolveSchemaURL X url w).2
            = closed url (Compile X data [id] w1).2)).
Proof.
  intros Hs Hc Hl w1. subst w1.
  destruct (loader url) as [ios r] eqn:He. simpl.
  split; [done|]. split.
  - intros e ->. by eapply resolveSchemaURL_loader_error.
  - intros body ->.
    assert (∃ w2, (resolveSchemaURL X url w).2 = closed url w2) as [w2 Hw2].
    { destruct (ReadAll body) as [data|err] eqn:Hr.
      - eexists. by eapply resolveSchemaURL_after_read.
      - eexists. by erewrite resolveSchemaURL_read_error by done. }
    split; [|split].
    + rewrite Hw2. simpl. apply last_snoc.
    + intros err Hr. by eapply resolveSchemaURL_read_error.
    + intros data Hr. by eapply resolveSchemaURL_after_read.
Qed.

Lemma Compile_compiler_through_init (I : Compiler → Prop) jsonSchema URIs w :
  (∀ p v, I (compiler v) → I (compiler (initializeSchema X p v))) →
  I (compiler w) →
  I (compiler (Compile X jsonSchema URIs w).2).
Proof.
  intros Hinit HI.
  destruct (newSchema X jsonSchema) as [s|e] eqn:Hn.
  - destruct (Compile_world_cases X jsonSchema URIs s w Hn)
      as [(existing & _ & _ & _ & ->)|(s' & _ & ->)]; simpl; [done|].
    by apply Hinit.
  - by rewrite (Compile_parse_error X jsonSchema URIs e).
Qed.

Lemma resolveSchemaURL_compiler_through_init (I : Compiler → Prop) url w :
  (∀ p v, I (compiler v) → I (compiler (initializeSchema X p v))) →
  I (compiler w) →
  I (compiler (resolveSchemaURL X url w).2).
Proof.
  intros Hinit HI.
  destruct (splitRef X url) as [id anchor] eqn:Hs.
  destruct (schemas (compiler w) !! id) as [schema|] eqn:Hc.
  { by erewrite resolveSchemaURL_cached by done. }
  destruct (Loaders (compiler w) !! getURLScheme X url) as [loader|] eqn:Hl;
    [|by erewrite resolveSchemaURL_no_loader by done].
  destruct (loader url) as [ios [body|e]] eqn:He;
    [|by erewrite resolveSchemaURL_loader_error by done].
  destruct (ReadAll body) as [data|err] eqn:Hr;
    [|by erewrite resolveSchemaURL_read_error by done].
  erewrite resolveSchemaURL_after_read by done. simpl.
  by apply Compile_compiler_through_init.
Qed.

(** X6.  [Compile], [resolveSchemaURL] and [GetSchema] write to the compiler
    through initialization only: whatever holds of the compiler (its cache,
    its loaders, its base URI, its format flag) and is kept by
    initialization, is kept by the three methods, error or not. *)
Theorem compiler_changes_only_through_initialization (I : Compiler → Prop) w :
  (∀ p v, I (compiler v) → I (compiler (initializeSchema X p v))) →
  I (compiler w) →
  (∀ jsonSchema URIs, I (compiler (Compile X jsonSchema URIs w).2))
  ∧ (∀ url, I (compiler (resolveSchemaURL X url w).2))
  ∧ (∀ ref, I (compiler (GetSchema X ref w).2)).
Proof.
  intros Hinit HI. split; [|split].
  - intros. by apply Compile_compiler_through_init.
  - intros. by apply resolveSchemaURL_compiler_through_init.
  - intros ref. destruct (splitRef X ref) as [baseURI anchor] eqn:Hs.
    destruct (schemas (compiler w) !! baseURI) as [schema|] eqn:Hc.
    + by erewrite GetSchema_hit by done.
    + erewrite GetSchema_miss by done.
      by apply resolveSchemaURL_compiler_through_init.
Qed.

Lemma loads_closed (url : string) (v : World) :
  loads (trace (closed url v)) = loads (trace v).
Proof. simpl. rewrite loads_app. unfold loads at 2. simpl. lia. Qed.

Lemma loads_loaded (scheme url : string) (ios : list IO) (v : World) :
  loads (trace (loaded scheme url ios v)) = S (loads (trace v)).
Proof.
  simpl. rewrite loads_app.
  change (loads (EvLoad scheme url :: map EvIO ios)) with (S (loads (map EvIO ios))).
  rewrite loads_IO. lia.
Qed.

Lemma Compile_loads jsonSchema URIs w :
  (∀ p v, trace (initializeSchema X p v) = trace v) →
  loads (trace (Compile X jsonSchema URIs w).2) = loads (trace w).
Proof.
  intros Hinit.
  destruct (newSchema X jsonSchema) as [s|e] eqn:Hn.
  - destruct (Compile_world_cases X jsonSchema URIs s w Hn)
      as [(existing & _ & _ & _ & ->)|(s' & _ & ->)]; simpl; [done|].
    rewrite Hinit. simpl. rewrite loads_app. unfold loads at 2. simpl. lia.
  - by rewrite (Compile_parse_error X jsonSchema URIs e).
Qed.

(** X7.  When initialization itself adds nothing to the trace, a call of
    [GetSchema] invokes a loader exactly once if the base of the reference is
    not cached and a loader is registered for the scheme, and otherwise
    leaves the world as it is. *)
Theorem GetSchema_loads_once_or_never ref w :
  (∀ p v, trace (initializeSchema X p v) = trace v) →
  (schemas (compiler w) !! (splitRef X ref).1 = None →
   is_Some (Loaders (compiler w) !! getURLScheme X ref) →
   loads (trace (GetSchema X ref w).2) = S (loads (trace w)))
  ∧ (is_Some (schemas (compiler w) !! (splitRef X ref).1)
     ∨ Loaders (compiler w) !! getURLScheme X ref = None →
     (GetSchema X ref w).2 = w).
Proof.
  intros Hinit. destruct (splitRef X ref) as [baseURI anchor] eqn:Hs. simpl.
  split.
  - intros Hc [loader Hl]. erewrite GetSchema_miss by done.
    destruct (loader ref) as [ios [body|e]] eqn:He.
    + destruct (ReadAll body) as [data|err] eqn:Hr.
      * erewrite resolveSchemaURL_after_read by done.
        rewrite loads_closed, Compile_loads by done. apply loads_loaded.
      * erewrite resolveSchemaURL_read_error by done. unfold snd.
        rewrite loads_closed. apply loads_loaded.
    + erewrite resolveSchemaURL_loader_error by done. apply loads_loaded.
  - intros [[schema Hc]|Hl].
    + by erewrite GetSchema_hit by done.
    + destruct (schemas (compiler w) !! baseURI) as [schema|] eqn:Hc.
      * by erewrite GetSchema_hit by done.
      * erewrite GetSchema_miss by done.
        by erewrite resolveSchemaURL_no_loader by done.
Qed.

(** X8.  Resolution through the default loader.  With the base not cached
    and the default loader under the scheme, a failing transport gives the
    fetch error after one request and nothing to close; a status other than
    200 gives the status error after one request and one close; a body that
    breaks off or that is no schema gives the read or parse error after one
    request and one close.  In all four the heap and the compiler are as
    before. *)
Theorem resolve_through_default_loader client StatusText url id anchor w :
  splitRef X url = (id, anchor) →
  schemas (compiler w) !! id = None →
  Loaders (compiler w) !! getURLScheme X url
  = Some (defaultHTTPLoader client StatusText) →
  let scheme := getURLScheme X url in
  let requested := mkWorld (heap w) (compiler w)
                     (trace w ++ [EvLoad scheme url; EvIO (IOGet url)]) in
  let requested_closed := mkWorld (heap w) (compiler w)
                     (trace w ++ [EvLoad scheme url; EvIO (IOGet url);
                                  EvIO (IOClose url)]) in
  (∀ err, Get client url = Err err →
     GetSchema X url w
     = (Err ("failed to fetch " +:+ url +:+ ": " +:+ err), requested))
  ∧ (∀ resp, Get client url = Ok resp → StatusCode resp ≠ 200%Z →
       GetSchema X url w
       = (Err (url +:+ " returned status code " +:+ pretty (StatusCode resp)
                   +:+ ": " +:+ StatusText (StatusCode resp)),
          requested_closed))
  ∧ (∀ resp err, Get client url = Ok resp → StatusCode resp = 200%Z →
       ReadAll (Body resp) = Err err →
       GetSchema X url w
       = (Err ("failed to read data from " +:+ url +:+ ": " +:+ err),
          requested_closed))
  ∧ (∀ resp data e, Get client url = Ok resp → StatusCode resp = 200%Z →
       ReadAll (Body resp) = Ok data → newSchema X data = Err e →
       GetSchema X url w = (Err e, requested_closed)).
Proof.
  intros Hs Hc Hl scheme requested requested_closed.
  erewrite GetSchema_miss by done.
  split; [|split; [|split]].
  - intros err Hg.
    erewrite (resolveSchemaURL_loader_error X url id anchor _ [IOGet url]);
      [done|done|done|done|].
    unfold defaultHTTPLoader. by rewrite Hg.
  - intros resp Hg Hst.
    erewrite (resolveSchemaURL_loader_error X url id anchor _ [IOGet url; IOClose url]);
      [|done|done|done|].
    + unfold loaded, log, requested_closed. simpl. done.
    + unfold defaultHTTPLoader. rewrite Hg.
      by rewrite bool_decide_eq_true_2.
  - intros resp err Hg Hst Hr.
    erewrite (resolveSchemaURL_read_error X url id anchor _ [IOGet url] (Body resp));
      [|done|done|done| |done].
    + unfold closed, loaded, log, requested_closed. simpl.
      by rewrite <- (assoc_L (++)).
    + unfold defaultHTTPLoader, StatusOK. rewrite Hg.
      by rewrite bool_decide_eq_false_2 by (by intros ?).
  - intros resp data e Hg Hst Hr Hn.
    erewrite (resolveSchemaURL_compile_error X url id anchor _ [IOGet url] (Body resp));
      [|done|done|done| |done|done].
    + unfold closed, loaded, log, requested_closed. simpl.
      by rewrite <- (assoc_L (++)).
    + unfold defaultHTTPLoader, StatusOK. rewrite Hg.
      by rewrite bool_decide_eq_false_2 by (by intros ?).
Qed.

(** X9.  A compiler as [NewCompiler] returns it has loaders for [http] and
    [https] only and an empty cache: every reference of another scheme fails
    with the error that names its scheme, and the world is as before. *)
Theorem NewCompiler_other_schemes_fail transport StatusText url w :
  compiler w = NewCompiler transport StatusText →
  getURLScheme X url ≠ "http" →
  getURLScheme X url ≠ "https" →
  GetSchema X url w
  = (Err ("no loader registered for scheme " +:+ getURLScheme X url), w)
  ∧ resolveSchemaURL X url w
    = (Err ("no loader registered for scheme " +:+ getURLScheme X url), w).
Proof.
  intros Hc Hhttp Hhttps.
  destruct (splitRef X url) as [id anchor] eqn:Hs.
  assert (schemas (compiler w) !! id = None) as Hmiss
    by (rewrite Hc; apply lookup_empty).
  assert (Loaders (compiler w) !! getURLScheme X url = None) as Hl.
  { rewrite Hc. unfold NewCompiler, setupLoaders. simpl.
    rewrite !lookup_insert_ne by done. apply lookup_empty. }
  erewrite GetSchema_miss by done.
  by erewrite resolveSchemaURL_no_loader by done.
Qed.

End ResolveMore.

(** ** The decoder and media-type registries *)

Lemma unmarshal_error_contains (format err : string) :
  contains format (format +:+ " unmarshal error: " +:+ err)
  ∧ contains err (format +:+ " unmarshal error: " +:+ err).
Proof.
  split.
  - apply contains_prefix.
  - apply contains_behind, contains_suffix.
Qed.

(** X10.  The registries of a new compiler hold the [base64] decoder and
    nothing else, and handlers for [application/json], [application/xml] and
    [application/yaml] and nothing else.  Each handler returns what its
    unmarshaller stores, and on failure an error made of the name of its
    format, [ unmarshal error: ] and the error of the unmarshaller. *)
Theorem default_registries {V : Type} (K : Codecs V) :
  let c := NewRegistries K in
  dom (Decoders c) = ({["base64"]} : gset string)
  ∧ Decoders c !! "base64" = Some (base64_DecodeString K)
  ∧ dom (MediaTypes c)
    = ({["application/json"; "application/xml"; "application/yaml"]} : gset string)
  ∧ (∃ h, MediaTypes c !! "application/json" = Some h
          ∧ ∀ data,
              (∀ v, json_Unmarshal K data = Ok v → h data = Ok v)
              ∧ (∀ err, json_Unmarshal K data = Err err →
                   h data = Err ("json unmarshal error: " +:+ err)
                   ∧ contains "json" ("json unmarshal error: " +:+ err)
                   ∧ contains err ("json unmarshal error: " +:+ err)))
  ∧ (∃ h, MediaTypes c !! "application/xml" = Some h
          ∧ ∀ data,
              (∀ v, xml_Unmarshal K data = Ok v → h data = Ok v)
              ∧ (∀ err, xml_Unmarshal K data = Err err →
                   h data = Err ("xml unmarshal error: " +:+ err)
                   ∧ contains "xml" ("xml unmarshal error: " +:+ err)
                   ∧ contains err ("xml unmarshal error: " +:+ err)))
  ∧ (∃ h, MediaTypes c !! "application/yaml" = Some h
          ∧ ∀ data,
              (∀ v, yaml_Unmarshal K data = Ok v → h data = Ok v)
              ∧ (∀ err, yaml_Unmarshal K data = Err err →
                   h data = Err ("yaml unmarshal error: " +:+ err)
                   ∧ contains "yaml" ("yaml unmarshal error: " +:+ err)
                   ∧ contains err ("yaml unmarshal error: " +:+ err))).
Proof.
  intros c. subst c. unfold NewRegistries, initDefaults, setupMediaTypes. simpl.
  split; [|split; [|split; [|split; [|split]]]].
  - rewrite dom_insert_L, dom_empty_L. set_solver.
  - apply lookup_insert_eq.
  - rewrite !dom_insert_L, dom_empty_L. set_solver.
  - exists (jsonMediaType K). split.
    + rewrite !lookup_insert_ne by done. apply lookup_insert_eq.
    + intros data. unfold jsonMediaType. split.
      * by intros v ->.
      * intros err ->. split; [done|]. apply (unmarshal_error_contains "json").
  - exists (xmlMediaType K). split.
    + rewrite lookup_insert_ne by done. apply lookup_insert_eq.
    + intros data. unfold xmlMediaType. split.
      * by intros v ->.
      * intros err ->. split; [done|]. apply (unmarshal_error_contains "xml").
  - exists (yamlMediaType K). split.
    + apply lookup_insert_eq.
    + intros data. unfold yamlMediaType. split.
      * by intros v ->.
      * intros err ->. split; [done|]. apply (unmarshal_error_contains "yaml").
Qed.

Lemma Registries_eq {V : Type} (c d : Registries V) :
  Decoders c = Decoders d → MediaTypes c = MediaTypes d → c = d.
Proof. destruct c, d; simpl. by intros -> ->. Qed.

(** X11.  A registered media type or decoder is what a lookup of its name
    gives afterwards, also when it replaces a default; every other name keeps
    its entry, the other registry is untouched, the last registration under a
    name wins, and the two kinds of registration can be made in any order. *)
Theorem registry_register_lookup {V : Type} (c : Registries V) :
  (∀ name f, MediaTypes (RegisterMediaType name f c) !! name = Some f)
  ∧ (∀ name other f, name ≠ other →
       MediaTypes (RegisterMediaType name f c) !! other = MediaTypes c !! other)
  ∧ (∀ name f, Decoders (RegisterMediaType name f c) = Decoders c)
  ∧ (∀ name d, Decoders (RegisterDecoder name d c) !! name = Some d)
  ∧ (∀ name other d, name ≠ other →
       Decoders (RegisterDecoder name d c) !! other = Decoders c !! other)
  ∧ (∀ name d, MediaTypes (RegisterDecoder name d c) = MediaTypes c)
  ∧ (∀ name f g,
       RegisterMediaType name g (RegisterMediaType name f c)
       = RegisterMediaType name g c)
  ∧ (∀ name d e,
       RegisterDecoder name e (RegisterDecoder name d c) = RegisterDecoder name e c)
  ∧ (∀ name f enc d,
       RegisterDecoder enc d (RegisterMediaType name f c)
       = RegisterMediaType name f (RegisterDecoder enc d c)).
Proof.
  split; [|split; [|split; [|split; [|split; [|split; [|split; [|split]]]]]]].
  - intros. apply lookup_insert_eq.
  - intros. by apply lookup_insert_ne.
  - done.
  - intros. apply lookup_insert_eq.
  - intros. by apply lookup_insert_ne.
  - done.
  - intros. apply Registries_eq; simpl; [done|]. apply insert_insert_eq.
  - intros. apply Registries_eq; simpl; [|done]. apply insert_insert_eq.
  - done.
Qed.

(** ** Further concrete runs *)

Lemma register_self_trace (valid : string → bool) (schema : ptr) (w : World) :
  trace (register_self valid schema w) = trace w.
Proof. unfold register_self. by repeat case_match. Qed.

Lemma register_self_loaders (valid : string → bool) (schema : ptr) (w : World) :
  Loaders (compiler (register_self valid schema w)) = Loaders (compiler w).
Proof. unfold register_self. by repeat case_match. Qed.

(** A second hint, and a hint for a document that names itself. *)
Lemma Compile_reads_first_hint_only_witness :
  Compile model "{}" ["mem://doc1"; "mem://doc9"] mem_world
  = Compile model "{}" ["mem://doc1"] mem_world
  ∧ Compile model doc_other ["mem://doc1"] mem_world
    = Compile model doc_other [] mem_world.
Proof.
  destruct (Compile_reads_first_hint_only model "{}" mem_world) as (H & _ & _).
  destruct (Compile_reads_first_hint_only model doc_other mem_world) as (_ & _ & H').
  split.
  - apply H.
  - apply (H' (mkSchema "mem://other" "" ∅)); [reflexivity | discriminate].
Defined.

(** The first compilation on a compiler without entries. *)
Lemma Compile_cached_or_fresh_witness :
  (Compile model "{}" ["mem://doc1"] mem_world).1 = Ok 0.
Proof.
  destruct (Compile_cached_or_fresh model "{}" ["mem://doc1"] (mkSchema "" "" ∅)
              mem_world eq_refl) as [_ H].
  apply H. reflexivity.
Defined.


(** Two loaders registered under [mem], and a schema stored in between. *)
Lemma configuration_chains_witness :
  RegisterLoader "mem" mem_loader
    (SetSchema "urn:ex:person" 1
       (RegisterLoader "mem" (λ _, ([], Err "offline")) (mkCompiler ∅ ∅ "" false)))
  = SetSchema "urn:ex:person" 1 mem_compiler.
Proof.
  destruct (configuration_chains
              (RegisterLoader "mem" (λ _, ([], Err "offline")) (mkCompiler ∅ ∅ "" false)))
    as (_ & _ & _ & _ & Hmix & _).
  destruct (configuration_chains (mkCompiler ∅ ∅ "" false))
    as (_ & _ & Hlast & _).
  rewrite <- Hmix, Hlast. reflexivity.
Defined.

(** A body that breaks off while it is read is closed. *)
Lemma resolveSchemaURL_effects_witness :
  resolveSchemaURL model "mem://cut" mem_world
  = (Err "failed to read data from mem://cut: unexpected EOF",
     mkWorld [] mem_compiler
       [EvLoad "mem" "mem://cut"; EvIO (IOClose "mem://cut")]).
Proof.
  destruct (resolveSchemaURL_effects model "mem://cut" "mem://cut" "" mem_loader
              mem_world eq_refl eq_refl eq_refl) as (_ & _ & H).
  destruct (H (mkReadCloser (Err "unexpected EOF")) eq_refl) as (_ & Hread & _).
  rewrite (Hread "unexpected EOF" eq_refl). reflexivity.
Defined.

(** The loader registry survives a resolution that registers a schema. *)
Lemma compiler_changes_only_through_initialization_witness :
  Loaders (compiler (GetSchema model "mem://doc1" mem_world).2)
  = Loaders mem_compiler.
Proof.
  destruct (compiler_changes_only_through_initialization model
              (λ c, Loaders c = Loaders mem_compiler) mem_world) as (_ & _ & H).
  - intros p v Hv. simpl. rewrite register_self_loaders. exact Hv.
  - reflexivity.
  - apply H.
Defined.

(** One loader call for [mem://doc1], none for a cached document. *)
Lemma GetSchema_loads_once_or_never_witness :
  loads (trace (GetSchema model "mem://doc1" mem_world).2) = 1%nat
  ∧ (GetSchema model "https://ex/schema.json" cached_world).2 = cached_world.
Proof.
  split.
  - destruct (GetSchema_loads_once_or_never model "mem://doc1" mem_world
                (register_self_trace isValidURI_model)) as [H _].
    apply H; [reflexivity | eexists; reflexivity].
  - destruct (GetSchema_loads_once_or_never model "https://ex/schema.json"
                cached_world (register_self_trace isValidURI_model)) as [_ H].
    apply H. left. eexists. reflexivity.
Defined.

(** A 404 through the default loader of a new compiler. *)
Lemma resolve_through_default_loader_witness :
  let transport := λ _ : string, Ok (mkResponse 404 (mkReadCloser (Ok ""))) in
  let StatusText := λ _ : Z, "Not Found" in
  let c := NewCompiler transport StatusText in
  GetSchema model "http://ex/s.json" (mkWorld [] c [])
  = (Err "http://ex/s.json returned status code 404: Not Found",
     mkWorld [] c
       [EvLoad "http" "http://ex/s.json"; EvIO (IOGet "http://ex/s.json");
        EvIO (IOClose "http://ex/s.json")]).
Proof.
  intros transport StatusText c.
  destruct (resolve_through_default_loader model (mkClient 10 transport) StatusText
              "http://ex/s.json" "http://ex/s.json" ""
              (mkWorld [] c []) eq_refl eq_refl eq_refl) as (_ & H & _).
  rewrite (H (mkResponse 404 (mkReadCloser (Ok ""))) eq_refl);
    [reflexivity | discriminate].
Defined.

(** A file reference on a new compiler. *)
Lemma NewCompiler_other_schemes_fail_witness :
  let c := NewCompiler (λ _, Err "offline") (λ _, "") in
  GetSchema model "file:///tmp/s.json" (mkWorld [] c [])
  = (Err "no loader registered for scheme file", mkWorld [] c []).
Proof.
  intros c.
  destruct (NewCompiler_other_schemes_fail model (λ _, Err "offline") (λ _, "")
              "file:///tmp/s.json" (mkWorld [] c []) eq_refl) as [H _];
    [discriminate | discriminate |].
  exact H.
Defined.

Lemma default_registries_witness :
  ∃ h, MediaTypes (NewRegistries text_codecs) !! "application/json" = Some h
       ∧ h "{}" = Ok "{}"
       ∧ h "oops" = Err "json unmarshal error: invalid character".
Proof.
  destruct (default_registries text_codecs) as (_ & _ & _ & (h & Hl & Hh) & _).
  exists h. split; [exact Hl|].
  destruct (Hh "{}") as [Hok _]. destruct (Hh "oops") as [_ Herr].
  split.
  - apply Hok. reflexivity.
  - apply (Herr "invalid character"). reflexivity.
Defined.

Lemma registry_register_lookup_witness :
  MediaTypes (RegisterMediaType "application/json" (λ _, Err "off")
                (NewRegistries text_codecs)) !! "application/yaml"
  = MediaTypes (NewRegistries text_codecs) !! "application/yaml".
Proof.
  destruct (registry_register_lookup (NewRegistries text_codecs)) as (_ & H & _).
  apply H. discriminate.
Defined.
